(** * Error identity and propagation: a model of [main.go]

    The development embeds the error framework of [main.go] (the
    [apiError] type with its methods, [NewError], the database, service and
    API layers) together with the parts of the Go runtime it relies on:
    interface values and their [==], [errors.Is], [errors.As],
    [errors.New] and [errors.Wrap] of [github.com/pkg/errors], the verbs of
    [fmt.Sprintf] that the program uses and the field selection of
    [encoding/json]. *)

From Stdlib Require Import ZArith List String Ascii Bool Lia.
Import ListNotations.

#[local] Set Warnings "-register-all".
#[local] Open Scope Z_scope.
#[local] Open Scope string_scope.

(** ** Error values *)

(** Addresses of heap objects.  The error types of [pkg/errors] are pointer
    types, so two of their values are [==] exactly when the addresses are. *)
Definition ptr := positive.

(** The dynamic values an [error] interface holds in this program: an
    [apiError] struct (a value type), or a pointer to one of the three error
    types of [pkg/errors].  The call stacks recorded by [pkg/errors] are left
    out: they are only observable through the [%+v] verb.  The wrapped error
    of [*withMessage] and [*withStack] is never nil, since [errors.Wrap]
    returns nil instead of wrapping nil. *)
Inductive dyn : Type :=
| DApi (Code : Z) (Message : string) (errno : Z) (err : option dyn)
| DFundamental (p : ptr) (msg : string)
| DWithMessage (p : ptr) (cause : dyn) (msg : string)
| DWithStack (p : ptr) (inner : dyn).

(** An interface value of type [error]: nil, or a dynamic value. *)
Definition error := option dyn.

Definition nil_error : error := None.

(** [type apiError struct].  [Code] is a Go [int], [errno] a [uint64]. *)
Record apiError : Type := mkApiError {
  Code : Z;
  Message : string;
  errno : Z;
  err : error
}.

(** Boxing an [apiError] into an interface value, and the type assertion
    [target.(apiError)]. *)
Definition box (e : apiError) : dyn :=
  DApi (Code e) (Message e) (errno e) (err e).

Definition as_error (e : apiError) : error := Some (box e).

Definition assert_apiError (target : error) : option apiError :=
  match target with
  | Some (DApi c m n e) => Some (mkApiError c m n e)
  | _ => None
  end.

Definition is_nil (e : error) : bool :=
  match e with None => true | Some _ => false end.

(** Induction over dynamic values that also descends into the optional cause
    of an [apiError]. *)
Section DynInd.
Variable P : dyn -> Prop.
Hypothesis HApiNil : forall c m n, P (DApi c m n None).
Hypothesis HApi : forall c m n d, P d -> P (DApi c m n (Some d)).
Hypothesis HFund : forall p msg, P (DFundamental p msg).
Hypothesis HMsg : forall p d msg, P d -> P (DWithMessage p d msg).
Hypothesis HStack : forall p d, P d -> P (DWithStack p d).

Fixpoint dyn_chain_ind (d : dyn) : P d :=
  match d with
  | DApi c m n None => HApiNil c m n
  | DApi c m n (Some d') => HApi c m n d' (dyn_chain_ind d')
  | DFundamental p msg => HFund p msg
  | DWithMessage p d' msg => HMsg p d' msg (dyn_chain_ind d')
  | DWithStack p d' => HStack p d' (dyn_chain_ind d')
  end.
End DynInd.

(** ** Comparison of interface values

    [a == b] on interfaces: both nil, or the same dynamic type and equal
    values.  Structs are compared field by field, pointers by address. *)
Fixpoint dyn_eqb (a b : dyn) {struct a} : bool :=
  match a, b with
  | DApi c1 m1 n1 e1, DApi c2 m2 n2 e2 =>
      Z.eqb c1 c2 && String.eqb m1 m2 && Z.eqb n1 n2 &&
      match e1, e2 with
      | None, None => true
      | Some d1, Some d2 => dyn_eqb d1 d2
      | _, _ => false
      end
  | DFundamental p1 _, DFundamental p2 _ => Pos.eqb p1 p2
  | DWithMessage p1 _ _, DWithMessage p2 _ _ => Pos.eqb p1 p2
  | DWithStack p1 _, DWithStack p2 _ => Pos.eqb p1 p2
  | _, _ => false
  end.

Definition error_eqb (a b : error) : bool :=
  match a, b with
  | None, None => true
  | Some x, Some y => dyn_eqb x y
  | _, _ => false
  end.

(** ** Formatting: the fragment of [fmt] the program uses *)

Module fmt.

(** Decimal digits of a natural number, most significant first. *)
Fixpoint digits (fuel : nat) (n : N) (acc : string) : string :=
  match fuel with
  | O => acc
  | S fuel' =>
      let d := String (ascii_of_N (48 + N.modulo n 10)) acc in
      if N.ltb n 10 then d else digits fuel' (N.div n 10) d
  end.

Definition itoa (z : Z) : string :=
  let n := Z.abs_N z in
  let s := digits (S (N.to_nat (N.log2 n))) n "" in
  if Z.ltb z 0 then String "-" s else s.

(** An operand of [Sprintf] ([any]).  Under [%v] and [%s] an error operand
    is seen by [fmt] only through its [Error] or [Format] method, so it is
    carried here with the name of its dynamic type and the text that method
    writes. *)
Inductive any : Type :=
| AString (s : string)
| AInt (z : Z)
| AError (type text : string)
| ANil.

Definition type_name (a : any) : string :=
  match a with
  | AString _ => "string"
  | AInt _ => "int"
  | AError ty _ => ty
  | ANil => "<nil>"
  end.

(** The operand as [%v] prints it. *)
Definition plain (a : any) : string :=
  match a with
  | AString s => s
  | AInt z => itoa z
  | AError _ t => t
  | ANil => "<nil>"
  end.

(** [%!c(type=value)], what [fmt] prints for a verb that the operand does
    not support. *)
Definition bad_verb (c : ascii) (a : any) : string :=
  match a with
  | ANil => "%!" ++ String c "(<nil>)"
  | _ => "%!" ++ String c ("(" ++ type_name a ++ "=" ++ plain a ++ ")")
  end.

(** One verb applied to one operand.  The verbs modelled are [%v], [%s]
    and [%d] on strings and integers, and [%v] and [%s] on errors; the
    program uses [%s] on strings and [%v] on errors.  Any other pair is
    printed with the bad-verb marker, which is what [fmt] does for the
    pairs of strings and integers among them. *)
Definition verb (c : ascii) (a : any) : string :=
  match c, a with
  | "v"%char, _ => plain a
  | "s"%char, AString s => s
  | "s"%char, AError _ t => t
  | "d"%char, AInt z => itoa z
  | _, _ => bad_verb c a
  end.

(** [%!(EXTRA type=value, ...)] for operands left over. *)
Fixpoint extra_list (l : list any) : string :=
  match l with
  | [] => ""
  | [a] => type_name a ++ (match a with ANil => "" | _ => "=" ++ plain a end)
  | a :: l' =>
      type_name a ++ (match a with ANil => "" | _ => "=" ++ plain a end)
      ++ ", " ++ extra_list l'
  end.

Definition extra (l : list any) : string :=
  match l with
  | [] => ""
  | _ => "%!(EXTRA " ++ extra_list l ++ ")"
  end.

(** [fmt.Sprintf(format, a...)] for formats whose directives are a percent
    sign followed directly by the verb: operands are consumed left to
    right, a missing operand prints [%!c(MISSING)], a percent sign at the
    end prints [%!(NOVERB)], and unused operands are reported at the end.
    Flags, widths, precisions and operand indexes are outside the model. *)
Fixpoint Sprintf (format : string) (a : list any) : string :=
  match format with
  | EmptyString => extra a
  | String "%"%char EmptyString => "%!(NOVERB)" ++ extra a
  | String "%"%char (String "%"%char rest) => String "%" (Sprintf rest a)
  | String "%"%char (String c rest) =>
      match a with
      | [] => "%!" ++ String c ("(MISSING)" ++ Sprintf rest [])
      | x :: a' => verb c x ++ Sprintf rest a'
      end
  | String ch rest => String ch (Sprintf rest a)
  end.

End fmt.

(** ** The methods of [apiError] *)

(** [reflect.TypeOf(err).String()] *)
Definition dyn_type (d : dyn) : string :=
  match d with
  | DApi _ _ _ _ => "main.apiError"
  | DFundamental _ _ => "*errors.fundamental"
  | DWithMessage _ _ _ => "*errors.withMessage"
  | DWithStack _ _ => "*errors.withStack"
  end.

(** A non-nil error as a [Sprintf] operand, given its [Error] method. *)
Definition operand_with (Error : dyn -> string) (d : dyn) : fmt.any :=
  fmt.AError (dyn_type d) (Error d).

(** [Error()] of a dynamic value.
    - [apiError]: [fmt.Sprintf("%s: %v", e.Message, e.err)] when [e.err] is
      not nil, else [e.Message];
    - [*fundamental]: the message;
    - [*withMessage]: [w.msg + ": " + w.cause.Error()];
    - [*withStack]: the [Error()] of the embedded error. *)
Fixpoint dyn_Error (d : dyn) : string :=
  match d with
  | DApi _ m _ (Some c) =>
      fmt.Sprintf "%s: %v" [fmt.AString m; operand_with dyn_Error c]
  | DApi _ m _ None => m
  | DFundamental _ msg => msg
  | DWithMessage _ cause msg => msg ++ ": " ++ dyn_Error cause
  | DWithStack _ inner => dyn_Error inner
  end.

(** An [error] as a [Sprintf] operand. *)
Definition operand (e : error) : fmt.any :=
  match e with
  | Some d => operand_with dyn_Error d
  | None => fmt.ANil
  end.

(** [func (e apiError) Error() string] *)
Definition Error (e : apiError) : string :=
  if negb (is_nil (err e)) then
    fmt.Sprintf "%s: %v" [fmt.AString (Message e); operand (err e)]
  else Message e.

(** [func (e apiError) F(a ...any) apiError] *)
Definition F (e : apiError) (a : list fmt.any) : apiError :=
  mkApiError (Code e) (fmt.Sprintf (Message e) a) (errno e) (err e).

(** [func (e apiError) Wrap(err error) error] *)
Definition Wrap (e : apiError) (cause : error) : error :=
  as_error (mkApiError (Code e) (Message e) (errno e) cause).

(** [func (e apiError) Unwrap() error] *)
Definition Unwrap (e : apiError) : error := err e.

(** ** [errors.Is], [errors.As] and [errors.Unwrap]

    [github.com/pkg/errors] forwards [Is], [As] and [Unwrap] to the standard
    [errors] package, whose loops are followed here.  Every dynamic type of
    this program is comparable, so the [targetComparable] test is true. *)

(** [errors.Unwrap(err)]: the result of the [Unwrap] method where the dynamic
    type has one ([apiError], [*withMessage], [*withStack]), else nil. *)
Definition errors_Unwrap (e : error) : error :=
  match e with
  | Some (DApi _ _ _ cause) => cause
  | Some (DWithMessage _ cause _) => Some cause
  | Some (DWithStack _ inner) => Some inner
  | Some (DFundamental _ _) => None
  | None => None
  end.

Section Methods.
(** The loop [is] of the [errors] package, entered with a non-nil error. *)
Variable is_ : dyn -> error -> bool.

(** [errors.Is(err, target)]:
    [if err == nil || target == nil { return err == target }], then the
    loop. *)
Definition errors_Is_with (e target : error) : bool :=
  match e, target with
  | Some d, Some _ => is_ d target
  | _, _ => error_eqb e target
  end.

(** [func (e apiError) Is(target error) bool] *)
Definition Is_with (e : apiError) (target : error) : bool :=
  match assert_apiError target with
  | Some t => Z.eqb (errno e) (errno t)
  | None => errors_Is_with (err e) target
  end.
End Methods.

(** The loop of [errors.Is]: at each error of the chain, [err == target],
    then the [Is] method when the dynamic type has one (only [apiError]
    does), then [Unwrap], stopping at nil or at a type without [Unwrap]. *)
Fixpoint is_ (d : dyn) (target : error) {struct d} : bool :=
  if error_eqb (Some d) target then true
  else if match d with
          | DApi c m n cause => Is_with is_ (mkApiError c m n cause) target
          | _ => false
          end then true
  else match d with
       | DApi _ _ _ (Some c) => is_ c target
       | DApi _ _ _ None => false
       | DWithMessage _ c _ => is_ c target
       | DWithStack _ c => is_ c target
       | DFundamental _ _ => false
       end.

Definition errors_Is : error -> error -> bool := errors_Is_with is_.

(** The method [apiError.Is] of the program. *)
Definition Is : apiError -> error -> bool := Is_with is_.

(** The loop of [errors.As] with a target of type [*apiError]: the first
    error of the chain whose dynamic type is [apiError] is stored in the
    target.  No type of the program has an [As] method. *)
Fixpoint as_ (d : dyn) : option apiError :=
  match d with
  | DApi c m n cause => Some (mkApiError c m n cause)
  | DWithMessage _ c _ => as_ c
  | DWithStack _ c => as_ c
  | DFundamental _ _ => None
  end.

(** [errors.As(err, &apiErr)]: [Some x] stands for the result [true] with
    [apiErr] set to [x], [None] for [false]. *)
Definition errors_As (e : error) : option apiError :=
  match e with
  | None => None
  | Some d => as_ d
  end.

(** The chain of an error: the error itself and what repeated [Unwrap]
    reaches, from the top. *)
Fixpoint chain_of (d : dyn) : list dyn :=
  d :: match d with
       | DApi _ _ _ (Some c) => chain_of c
       | DApi _ _ _ None => []
       | DWithMessage _ c _ => chain_of c
       | DWithStack _ c => chain_of c
       | DFundamental _ _ => []
       end.

Definition chain (e : error) : list dyn :=
  match e with
  | None => []
  | Some d => chain_of d
  end.

Definition is_apiError (d : dyn) : bool :=
  match d with DApi _ _ _ _ => true | _ => false end.

(** ** The state of the process: the counter [errNo] and the allocator *)

Record state : Type := mkState {
  errNo : Z;      (* var errNo uint64 *)
  next : ptr      (* the next free address *)
}.

Definition uint64_modulus : Z := 2 ^ 64.

Definition M (A : Type) : Type := state -> A * state.

Definition ret {A} (a : A) : M A := fun s => (a, s).

Definition bind {A B} (m : M A) (k : A -> M B) : M B :=
  fun s => let (a, s') := m s in k a s'.

Notation "x <- m ;; k" := (bind m (fun x => k))
  (at level 61, m at next level, right associativity).

(** [atomic.AddUint64(&errNo, 1)] *)
Definition AddUint64_errNo (delta : Z) : M Z :=
  fun s =>
    let v := (errNo s + delta) mod uint64_modulus in
    (v, mkState v (next s)).

(** [func NewError(code int, message string) apiError]: the struct is built
    with the current value of [errNo], then the counter is incremented. *)
Definition NewError (code : Z) (message : string) : M apiError :=
  fun s =>
    let e := mkApiError code message (errNo s) nil_error in
    let (_, s') := AddUint64_errNo 1 s in
    (e, s').

(** Allocation of one heap object. *)
Definition alloc : M ptr :=
  fun s => (next s, mkState (errNo s) (Pos.succ (next s))).

(** [errors.New(message)] of [pkg/errors]: a fresh [*fundamental]. *)
Definition errors_New (message : string) : M error :=
  p <- alloc ;; ret (Some (DFundamental p message)).

(** [errors.Wrap(err, message)] of [pkg/errors]: nil for nil, else a fresh
    [*withStack] around a fresh [*withMessage] around [err]. *)
Definition errors_Wrap (e : error) (message : string) : M error :=
  match e with
  | None => ret nil_error
  | Some d =>
      p <- alloc ;;
      q <- alloc ;;
      ret (Some (DWithStack q (DWithMessage p d message)))
  end.

(** ** The package-level errors *)

Definition StatusNotFound : Z := 404.
Definition StatusBadRequest : Z := 400.

Record globals : Type := mkGlobals {
  ErrNotFound : apiError;
  ErrInvalidId : apiError;
  ErrFromExternalLib : error;
  ErrThingIdTooHigh : apiError
}.

(** Package initialisation, in the order of declaration. *)
Definition init : M globals :=
  nf <- NewError StatusNotFound "%s not found" ;;
  ii <- NewError StatusBadRequest "invalid %s id" ;;
  ext <- errors_New "external lib error" ;;
  th <- NewError StatusBadRequest "%s id too high" ;;
  ret (mkGlobals nf ii ext th).

Definition state0 : state := mkState 0 1%positive.

Definition G : globals := fst (init state0).
Definition started : state := snd (init state0).

(** ** Database, service and API *)

Section Layers.
Variable g : globals.

(** [func externalLibGet() error] *)
Definition externalLibGet : error := ErrFromExternalLib g.

(** [func (Database) GetThingById(id int) error] *)
Definition GetThingById (id : Z) : error :=
  if Z.ltb id 0 then as_error (F (ErrInvalidId g) [fmt.AString "thing"])
  else
    let e := externalLibGet in
    if negb (is_nil e)
    then Wrap (F (ErrNotFound g) [fmt.AString "thing"]) e
    else nil_error.

(** [func (s Service) DoSomethingWithThing(id int) error] *)
Definition DoSomethingWithThing (id : Z) : M error :=
  if Z.leb 10 id then ret (as_error (F (ErrThingIdTooHigh g) [fmt.AString "thing"]))
  else
    let e := GetThingById id in
    if negb (is_nil e) then
      if errors_Is e (as_error (ErrInvalidId g))
      then errors_Wrap e "this is a wrapped error"
      else ret e
    else ret nil_error.
End Layers.

(** ** The response body: what [encoding/json] keeps of a struct *)

Module json.

(** A JSON document.  [json.MarshalIndent] returns its indented text; the
    model stops at the document. *)
Inductive value : Type :=
| Null
| Number (z : Z)
| Str (s : string)
| Object (members : list (string * value)).

(** A struct field as reflection shows it: its Go name, the name given by
    its [json] tag if any, and the encoding of its value. *)
Record field : Type := mkField {
  name : string;
  tag : option string;
  encoded : value
}.

Definition is_upper (c : ascii) : bool :=
  let n := nat_of_ascii c in Nat.leb 65 n && Nat.leb n 90.

(** A field is exported when its name starts with an upper-case letter;
    the encoder skips the others. *)
Definition exported (f : field) : bool :=
  match name f with
  | String c _ => is_upper c
  | EmptyString => false
  end.

Definition key (f : field) : string :=
  match tag f with
  | Some k => k
  | None => name f
  end.

Definition marshal_struct (fields : list field) : value :=
  Object (map (fun f => (key f, encoded f)) (filter exported fields)).

End json.

(** The encoding of a dynamic error value: the fields of [apiError] with
    their tags; the structs of [pkg/errors] have no exported field. *)
Fixpoint marshal_dyn (d : dyn) : json.value :=
  match d with
  | DApi c m n e =>
      json.marshal_struct
        [ json.mkField "Code" (Some "code") (json.Number c);
          json.mkField "Message" (Some "message") (json.Str m);
          json.mkField "errno" None (json.Number n);
          json.mkField "err" None
            (match e with
             | None => json.Null
             | Some d' => marshal_dyn d'
             end) ]
  | DFundamental _ _ => json.marshal_struct []
  | DWithMessage _ _ _ => json.marshal_struct []
  | DWithStack _ _ => json.marshal_struct []
  end.

(** [json.MarshalIndent(apiErr, "", "  ")] *)
Definition MarshalIndent (e : apiError) : json.value := marshal_dyn (box e).

(** ** The API boundary *)

Definition newline : string := String (ascii_of_nat 10) EmptyString.

(** What [respondWithError] writes: for an error that holds an [apiError],
    the line for the operator and the body for the client; otherwise the
    unknown-error answer, which prints the error with [%+v] (call stacks
    included) and is kept here as the error itself. *)
Inductive response : Type :=
| Known (log : string) (body : json.value)
| UnknownError (e : error).

(** [func respondWithError(err error)] *)
Definition respondWithError (e : error) : response :=
  match errors_As e with
  | Some apiErr =>
      Known (fmt.Sprintf ("Internal error: %v" ++ newline) [operand e])
            (MarshalIndent apiErr)
  | None => UnknownError e
  end.

(** [func (a API) DoSomethingWithThingHandler(id int)]: [None] stands for
    the answer 200 OK, which writes nothing. *)
Definition DoSomethingWithThingHandler (g : globals) (id : Z)
  : M (option response) :=
  e <- DoSomethingWithThing g id ;;
  if negb (is_nil e) then ret (Some (respondWithError e)) else ret None.

(** [func main()] *)
Definition main : M (list (option response)) :=
  r1 <- DoSomethingWithThingHandler G 10 ;;
  r2 <- DoSomethingWithThingHandler G 5 ;;
  r3 <- DoSomethingWithThingHandler G (-1) ;;
  ret [r1; r2; r3].

Definition body_of (r : option response) : option json.value :=
  match r with
  | Some (Known _ b) => Some b
  | _ => None
  end.

(** ** Sequences of [NewError] calls *)

Fixpoint NewErrors (calls : list (Z * string)) : M (list apiError) :=
  match calls with
  | [] => ret []
  | (code, message) :: rest =>
      e <- NewError code message ;;
      es <- NewErrors rest ;;
      ret (e :: es)
  end.

(** ** [NewError] under interleaving

    [NewError] touches [errNo] twice: the plain read that fills the field
    [errno] (line 59) and the atomic increment (line 61).  A thread running
    [NewError] is therefore in one of three places. *)
Inductive thread : Type :=
| Called (code : Z) (message : string)
| Built (e : apiError)
| Returned (e : apiError).

(** One action of a thread on the shared state. *)
Definition step_thread (t : thread) : M thread :=
  match t with
  | Called code message =>
      fun s => (Built (mkApiError code message (errNo s) nil_error), s)
  | Built e => _ <- AddUint64_errNo 1 ;; ret (Returned e)
  | Returned e => ret (Returned e)
  end.

Fixpoint update {A} (l : list A) (i : nat) (a : A) : list A :=
  match l, i with
  | [], _ => []
  | _ :: l', O => a :: l'
  | x :: l', S i' => x :: update l' i' a
  end.

(** A schedule names, action after action, the thread that moves. *)
Fixpoint run (schedule : list nat) (threads : list thread) : M (list thread) :=
  match schedule with
  | [] => ret threads
  | i :: rest =>
      match nth_error threads i with
      | Some t => t' <- step_thread t ;; run rest (update threads i t')
      | None => run rest threads
      end
  end.

Definition result (t : thread) : option apiError :=
  match t with
  | Returned e => Some e
  | _ => None
  end.

(** The calls that have returned, counted. *)
Definition returned (t : thread) : Z :=
  match t with
  | Returned _ => 1
  | _ => 0
  end.

Fixpoint count_returned (threads : list thread) : Z :=
  match threads with
  | [] => 0
  | t :: rest => returned t + count_returned rest
  end.

(** ** The reading of [Is] in the specification

    [Is(e, target)] is true iff [target] is a StructuredError with the
    identity of [e], or recursively true for the cause of [e]; an error
    that is not a StructuredError is compared with [==], and so is a nil
    cause. *)
Fixpoint spec_Is_dyn (d : dyn) (target : error) : bool :=
  match d with
  | DApi _ _ n cause =>
      match assert_apiError target with
      | Some t => Z.eqb n (errno t)
      | None => false
      end
      || match cause with
         | Some c => spec_Is_dyn c target
         | None => is_nil target
         end
  | DWithMessage _ c _ => error_eqb (Some d) target || spec_Is_dyn c target
  | DWithStack _ c => error_eqb (Some d) target || spec_Is_dyn c target
  | DFundamental _ _ => error_eqb (Some d) target
  end.

Definition spec_Is (e : apiError) (target : error) : bool :=
  spec_Is_dyn (box e) target.

(** ** Vocabulary for the chain of an error *)

(** The dynamic value is an [apiError] with identity [n]. *)
Definition has_errno (n : Z) (d : dyn) : bool :=
  match d with
  | DApi _ _ m _ => Z.eqb m n
  | _ => false
  end.

(** The text an error adds to the message of its chain: the [Message] of an
    [apiError], the message of [*fundamental] and of [*withMessage];
    [*withStack] adds none. *)
Definition own_text (d : dyn) : list string :=
  match d with
  | DApi _ m _ _ => [m]
  | DFundamental _ msg => [msg]
  | DWithMessage _ _ msg => [msg]
  | DWithStack _ _ => []
  end.

Definition texts (e : error) : list string := flat_map own_text (chain e).

(** The string holds no percent sign. *)
Fixpoint no_percent (s : string) : bool :=
  match s with
  | EmptyString => true
  | String c rest => negb (Ascii.eqb c "%") && no_percent rest
  end.

(** The three bodies the program sends. *)
Definition body_400_too_high : json.value :=
  json.Object [("code", json.Number 400);
               ("message", json.Str "thing id too high")].

Definition body_404_not_found : json.value :=
  json.Object [("code", json.Number 404);
               ("message", json.Str "thing not found")].

Definition body_400_invalid_id : json.value :=
  json.Object [("code", json.Number 400);
               ("message", json.Str "invalid thing id")].

(** * Properties *)

(** ** Formatting *)

Lemma append_empty_r (s : string) : s ++ "" = s.
Proof. induction s as [|c s IH]; simpl; [reflexivity | now rewrite IH]. Qed.

Lemma Sprintf_message_cause (m ty t : string) :
  fmt.Sprintf "%s: %v" [fmt.AString m; fmt.AError ty t] = m ++ ": " ++ t.
Proof. simpl. now rewrite append_empty_r. Qed.

(** ** Unfolding the loops *)

Lemma box_assert (e : apiError) : assert_apiError (as_error e) = Some e.
Proof. now destruct e. Qed.

Lemma is_unfold (d : dyn) (target : error) :
  is_ d target =
    error_eqb (Some d) target
    || match assert_apiError (Some d) with
       | Some x => Is x target
       | None => false
       end
    || match errors_Unwrap (Some d) with
       | Some c => is_ c target
       | None => false
       end.
Proof.
  destruct d as [c m n [d'|]|p msg|p d' msg|p d'];
    cbn [is_ assert_apiError errors_Unwrap]; unfold Is;
    repeat match goal with
           | |- context [if ?b then _ else _] => destruct b
           end; reflexivity.
Qed.

Lemma chain_unfold (e : error) :
  chain e = match e with
            | None => []
            | Some d => d :: chain (errors_Unwrap e)
            end.
Proof. destruct e as [[c m n [d'|]|p msg|p d' msg|p d']|]; reflexivity. Qed.

(** A target that is not an [apiError] is found by [errors.Is] exactly when
    it is [==] to an error of the chain. *)
Lemma is_pointer_target (t : dyn) (Ht : is_apiError t = false) (d : dyn) :
  is_ d (Some t) = existsb (fun x => dyn_eqb x t) (chain_of d).
Proof.
  assert (Hassert : assert_apiError (Some t) = None)
    by (destruct t; simpl in *; congruence).
  induction d as [c m n|c m n d IH|p msg|p d msg IH|p d IH] using dyn_chain_ind;
    cbn [is_ chain_of existsb error_eqb];
    unfold Is_with, errors_Is_with; rewrite ?Hassert; cbn [err];
    try rewrite IH.
  all: try (destruct t; simpl in *; try congruence; destruct (Pos.eqb _ _); reflexivity).
  destruct (dyn_eqb _ t), (existsb _ _); reflexivity.
Qed.

(** ** [Is]: matching by identity *)

(** The counterexample to C1 as stated: the cause of [e] has the identity of
    the target, so the check holds recursively for the cause chain, but [e]
    itself has another identity and [Is] answers false without consulting
    the cause. *)
Lemma Is_skips_cause_for_apiError_target :
  let cause := mkApiError 400 "invalid thing id" 1 nil_error in
  let e := mkApiError 404 "thing not found" 0 (as_error cause) in
  let target := as_error (mkApiError 400 "invalid %s id" 1 nil_error) in
  Is e target = false
  /\ spec_Is e target = true
  /\ Is cause target = true
  /\ errors_Is (as_error e) target = true.
Proof. repeat split; reflexivity. Qed.

(** C1 (amended): when the target is a StructuredError, [Is(e, target)] is
    the comparison of the two identities and the cause of [e] is not
    consulted; when the target is another non-nil error, [Is(e, target)]
    tells whether the target is [==] to an error of the cause chain of [e];
    when the target is nil, it tells whether [e] has no cause. *)
Theorem Is_by_kind_of_target (e : apiError) (target : error) :
  Is e target =
    match target with
    | Some (DApi _ _ tn _) => Z.eqb (errno e) tn
    | Some t => existsb (fun d => dyn_eqb d t) (chain (err e))
    | None => is_nil (err e)
    end.
Proof.
  unfold Is, Is_with, errors_Is_with.
  destruct target as [t|]; [|destruct (err e); reflexivity].
  destruct t as [c m n ca|p msg|p d msg|p d]; cbn [assert_apiError errno];
    try reflexivity;
    (destruct (err e) as [d0|]; [apply is_pointer_target|]; reflexivity).
Qed.

(** C10: an [apiError] without cause answers true to [Is(nil)]. *)
Theorem Is_nil_target_without_cause (e : apiError) (H : err e = nil_error) :
  Is e nil_error = true.
Proof. rewrite Is_by_kind_of_target, H. reflexivity. Qed.

Lemma Is_nil_target_without_cause_witness :
  Is (mkApiError 404 "%s not found" 0 nil_error) nil_error = true.
Proof. apply Is_nil_target_without_cause. reflexivity. Defined.

(** ** Classification at the API boundary *)

Lemma as_first_apiError (d : dyn) :
  as_ d = assert_apiError (find is_apiError (chain_of d)).
Proof.
  induction d as [c m n|c m n d IH|p msg|p d msg IH|p d IH] using dyn_chain_ind;
    simpl; auto.
Qed.

(** C3: [errors.As] in [respondWithError] succeeds exactly when the Unwrap
    chain of the error holds an [apiError], it yields the first one from the
    top, and the unknown-error answer is given otherwise. *)
Theorem respondWithError_classifies (e : error) :
  errors_As e = assert_apiError (find is_apiError (chain e))
  /\ existsb is_apiError (chain e)
     = match errors_As e with Some _ => true | None => false end
  /\ respondWithError e
     = match assert_apiError (find is_apiError (chain e)) with
       | Some x =>
           Known (fmt.Sprintf ("Internal error: %v" ++ newline) [operand e])
                 (MarshalIndent x)
       | None => UnknownError e
       end.
Proof.
  assert (H1 : errors_As e = assert_apiError (find is_apiError (chain e))).
  { destruct e as [d|]; [apply as_first_apiError | reflexivity]. }
  split; [exact H1|]. split.
  - rewrite H1. induction (chain e) as [|x l IH]; [reflexivity|].
    simpl. destruct x; simpl; auto.
  - unfold respondWithError. rewrite H1. reflexivity.
Qed.

(** ** [Wrap], [F] and [Error] *)

(** C4: [Wrap(e, c)] keeps the identity, the public code and the rendered
    message of [e], and its [Unwrap] is [c]. *)
Theorem Wrap_changes_only_cause (e : apiError) (c : error) :
  exists w : apiError,
    Wrap e c = as_error w
    /\ errno w = errno e /\ Code w = Code e /\ Message w = Message e
    /\ Unwrap w = c /\ errors_Unwrap (Wrap e c) = c.
Proof.
  exists (mkApiError (Code e) (Message e) (errno e) c).
  repeat split.
Qed.

(** C6: the identity and the public code of [F(a...)] do not depend on the
    arguments, so errors formatted from one template match each other. *)
Theorem F_identity_argument_invariant (t : apiError) (a1 a2 : list fmt.any) :
  errno (F t a1) = errno (F t a2)
  /\ Code (F t a1) = Code (F t a2)
  /\ errno (F t a1) = errno t
  /\ Is (F t a1) (as_error (F t a2)) = true.
Proof.
  repeat split. rewrite Is_by_kind_of_target. simpl. apply Z.eqb_refl.
Qed.

Lemma dyn_Error_box (e : apiError) : dyn_Error (box e) = Error e.
Proof. destruct e as [c m n [d|]]; reflexivity. Qed.

(** C7: [Error()] is the rendered message when there is no cause, else the
    rendered message, a colon, a space and the message of the cause, which
    is rendered the same way when it is itself an [apiError]. *)
Theorem Error_message_then_cause (e : apiError) :
  Error e = match err e with
            | None => Message e
            | Some c => Message e ++ ": " ++ dyn_Error c
            end
  /\ dyn_Error (box e) = Error e
  /\ option_map dyn_Error
       (Wrap (F (ErrNotFound G) [fmt.AString "thing"]) (ErrFromExternalLib G))
     = Some "thing not found: external lib error".
Proof.
  split; [|split; [apply dyn_Error_box | reflexivity]].
  unfold Error. destruct (err e) as [c|]; [|reflexivity].
  apply Sprintf_message_cause.
Qed.

(** ** The client-visible body *)

Lemma MarshalIndent_members (e : apiError) :
  MarshalIndent e =
    json.Object [("code", json.Number (Code e));
                 ("message", json.Str (Message e))].
Proof. reflexivity. Qed.

Lemma respondWithError_apiError (e : apiError) :
  body_of (Some (respondWithError (as_error e))) = Some (MarshalIndent e).
Proof. destruct e; reflexivity. Qed.

(** C9: the body written at the API boundary has the members [code] and
    [message] and nothing else; two [apiError] values with the same [Code]
    and [Message] give the same body, whatever their [errno] and [err]. *)
Theorem body_ignores_errno_and_cause (e1 e2 : apiError)
    (HCode : Code e1 = Code e2) (HMessage : Message e1 = Message e2) :
  MarshalIndent e1 = MarshalIndent e2
  /\ body_of (Some (respondWithError (as_error e1)))
     = body_of (Some (respondWithError (as_error e2)))
  /\ body_of (Some (respondWithError (as_error e1)))
     = Some (json.Object [("code", json.Number (Code e1));
                          ("message", json.Str (Message e1))]).
Proof.
  rewrite !respondWithError_apiError, !MarshalIndent_members, HCode, HMessage.
  repeat split.
Qed.

Lemma body_ignores_errno_and_cause_witness :
  let e1 := mkApiError 400 "invalid thing id" 1 nil_error in
  let e2 := mkApiError 400 "invalid thing id" 7
              (Some (DFundamental 5%positive "external lib error")) in
  MarshalIndent e1 = MarshalIndent e2
  /\ body_of (Some (respondWithError (as_error e1)))
     = body_of (Some (respondWithError (as_error e2)))
  /\ body_of (Some (respondWithError (as_error e1)))
     = Some (json.Object [("code", json.Number 400);
                          ("message", json.Str "invalid thing id")]).
Proof.
  intros e1 e2.
  apply (body_ignores_errno_and_cause e1 e2); reflexivity.
Defined.

(** The output that [main] documents in its closing comment. *)
Example main_output :
  fst (main started) =
    [ Some (Known ("Internal error: thing id too high" ++ newline)
              (json.Object [("code", json.Number 400);
                            ("message", json.Str "thing id too high")]));
      Some (Known ("Internal error: thing not found: external lib error"
                   ++ newline)
              (json.Object [("code", json.Number 404);
                            ("message", json.Str "thing not found")]));
      Some (Known ("Internal error: this is a wrapped error: invalid thing id"
                   ++ newline)
              (json.Object [("code", json.Number 400);
                            ("message", json.Str "invalid thing id")])) ].
Proof. reflexivity. Qed.

(** C8: for a negative id the database answers [ErrInvalidId.F("thing")],
    the service wraps it with [errors.Wrap], and the body sent to the client
    is still code 400 with the message of the database error: the body of
    the wrapped error is the body of the error before wrapping. *)
Theorem negative_id_body (id : Z) (s : state) (H : id < 0) :
  fst (DoSomethingWithThingHandler G id s)
  = Some (Known ("Internal error: this is a wrapped error: invalid thing id"
                 ++ newline)
            (json.Object [("code", json.Number 400);
                          ("message", json.Str "invalid thing id")]))
  /\ GetThingById G id
     = as_error (F (ErrInvalidId G) [fmt.AString "thing"])
  /\ body_of (fst (DoSomethingWithThingHandler G id s))
     = body_of (Some (respondWithError (GetThingById G id))).
Proof.
  assert (H10 : Z.leb 10 id = false) by (apply Z.leb_gt; lia).
  assert (H0 : Z.ltb id 0 = true) by (apply Z.ltb_lt; exact H).
  unfold DoSomethingWithThingHandler, DoSomethingWithThing, GetThingById.
  rewrite H10, H0. repeat split.
Qed.

Lemma negative_id_body_witness :
  fst (DoSomethingWithThingHandler G (-1) started)
  = Some (Known ("Internal error: this is a wrapped error: invalid thing id"
                 ++ newline)
            (json.Object [("code", json.Number 400);
                          ("message", json.Str "invalid thing id")]))
  /\ GetThingById G (-1)
     = as_error (F (ErrInvalidId G) [fmt.AString "thing"])
  /\ body_of (fst (DoSomethingWithThingHandler G (-1) started))
     = body_of (Some (respondWithError (GetThingById G (-1)))).
Proof. apply (negative_id_body (-1) started). lia. Defined.

(** ** The registry counter *)

Lemma uint64_modulus_pos : 0 < uint64_modulus.
Proof. reflexivity. Qed.

Lemma NewError_run (code : Z) (message : string) (s : state) :
  NewError code message s =
    (mkApiError code message (errNo s) nil_error,
     mkState ((errNo s + 1) mod uint64_modulus) (next s)).
Proof. reflexivity. Qed.

Lemma NewErrors_cons (code : Z) (message : string) (rest : list (Z * string))
    (s : state) :
  fst (NewErrors ((code, message) :: rest) s) =
    mkApiError code message (errNo s) nil_error
    :: fst (NewErrors rest
              (mkState ((errNo s + 1) mod uint64_modulus) (next s))).
Proof.
  cbn [NewErrors]. unfold bind. rewrite NewError_run.
  destruct (NewErrors rest _) as [es s']. reflexivity.
Qed.

(** The template made by call number [i] (from 0) carries the counter value
    at the start plus [i], modulo 2^64. *)
Lemma NewErrors_nth (calls : list (Z * string)) :
  forall (s : state) (i : nat) (code : Z) (message : string),
    0 <= errNo s < uint64_modulus ->
    nth_error calls i = Some (code, message) ->
    nth_error (fst (NewErrors calls s)) i =
      Some (mkApiError code message
              ((errNo s + Z.of_nat i) mod uint64_modulus) nil_error).
Proof.
  induction calls as [|[c m] rest IH]; intros s i code message Hs Hi.
  - destruct i; discriminate.
  - rewrite NewErrors_cons. destruct i as [|i].
    + cbn [nth_error] in *. injection Hi as -> ->.
      rewrite Z.add_0_r, Z.mod_small by exact Hs. reflexivity.
    + cbn [nth_error] in *. rewrite (IH _ i code message); [|cbn [errNo]|exact Hi].
      * cbn [errNo]. rewrite Zplus_mod_idemp_l.
        do 2 f_equal. f_equal. lia.
      * apply Z.mod_pos_bound, uint64_modulus_pos.
Qed.

Lemma NewErrors_length (calls : list (Z * string)) :
  forall s, List.length (fst (NewErrors calls s)) = List.length calls.
Proof.
  induction calls as [|[c m] rest IH]; intros s; [reflexivity|].
  rewrite NewErrors_cons. cbn [List.length]. now rewrite IH.
Qed.

(** The counterexample to C5 as stated: in a run of 2^64 + 1 calls from the
    start of the process, the last template has the identity of the first,
    because [atomic.AddUint64] wraps around. *)
Lemma NewErrors_reuses_identity_after_wrap :
  let n := Z.to_nat uint64_modulus in
  let calls := repeat (StatusBadRequest, "%s id too high") (S n) in
  exists a b : apiError,
    nth_error (fst (NewErrors calls state0)) 0 = Some a
    /\ nth_error (fst (NewErrors calls state0)) n = Some b
    /\ (0 < n)%nat
    /\ errno b = errno a.
Proof.
  intros n calls.
  assert (Hn : Z.of_nat n = uint64_modulus).
  { unfold n. apply Z2Nat.id. apply Z.lt_le_incl, uint64_modulus_pos. }
  clearbody n.
  assert (Hs : 0 <= errNo state0 < uint64_modulus).
  { split; [apply Z.le_refl | apply uint64_modulus_pos]. }
  assert (H0 : nth_error calls 0 = Some (StatusBadRequest, "%s id too high"))
    by reflexivity.
  assert (Hlast : nth_error calls n = Some (StatusBadRequest, "%s id too high")).
  { unfold calls. apply nth_error_repeat. apply Nat.lt_succ_diag_r. }
  exists (mkApiError StatusBadRequest "%s id too high"
            ((errNo state0 + Z.of_nat 0) mod uint64_modulus) nil_error).
  exists (mkApiError StatusBadRequest "%s id too high"
            ((errNo state0 + Z.of_nat n) mod uint64_modulus) nil_error).
  split; [apply NewErrors_nth; assumption|].
  split; [apply NewErrors_nth; assumption|].
  split.
  - apply Nat2Z.inj_lt. rewrite Hn. apply uint64_modulus_pos.
  - cbn [errno errNo state0]. rewrite Hn.
    change (Z.of_nat 0) with 0.
    rewrite Z.add_0_l, Z_mod_same_full. reflexivity.
Qed.

(** C5 (amended): in a run of [NewError] calls during which the counter does
    not pass 2^64 (from the start of the process, a run of at most 2^64
    calls), the identity of a template made later is strictly greater than
    the identity of every template made earlier, so no two templates share
    an identity. *)
Theorem NewErrors_identities_increase (calls : list (Z * string)) (s : state)
    (i j : nat) (a b : apiError)
    (Hlo : 0 <= errNo s)
    (Hroom : errNo s + Z.of_nat (List.length calls) <= uint64_modulus)
    (Hij : (i < j)%nat)
    (Ha : nth_error (fst (NewErrors calls s)) i = Some a)
    (Hb : nth_error (fst (NewErrors calls s)) j = Some b) :
  errno a < errno b /\ errno a <> errno b.
Proof.
  assert (Hj : (j < List.length calls)%nat).
  { rewrite <- (NewErrors_length calls s). apply nth_error_Some. congruence. }
  assert (Hs : 0 <= errNo s < uint64_modulus) by lia.
  destruct (nth_error calls i) as [[ci mi]|] eqn:Ei;
    [|apply nth_error_None in Ei; lia].
  destruct (nth_error calls j) as [[cj mj]|] eqn:Ej;
    [|apply nth_error_None in Ej; lia].
  rewrite (NewErrors_nth calls s i ci mi Hs Ei) in Ha.
  rewrite (NewErrors_nth calls s j cj mj Hs Ej) in Hb.
  injection Ha as <-. injection Hb as <-. cbn [errno].
  rewrite !Z.mod_small by lia. lia.
Qed.

Lemma NewErrors_identities_increase_witness :
  errno (ErrNotFound G) < errno (ErrThingIdTooHigh G)
  /\ errno (ErrNotFound G) <> errno (ErrThingIdTooHigh G).
Proof.
  apply (NewErrors_identities_increase
           [(StatusNotFound, "%s not found");
            (StatusBadRequest, "invalid %s id");
            (StatusBadRequest, "%s id too high")]
           state0 0 2).
  - simpl. lia.
  - vm_compute. discriminate.
  - lia.
  - reflexivity.
  - reflexivity.
Defined.

(** ** Concurrent calls of [NewError] *)

(** A thread that is scheduled twice in a row runs [NewError] as the
    sequential program does. *)
Lemma run_alone_is_NewError (code : Z) (message : string) (s : state) :
  run [0; 0]%nat [Called code message] s =
    let (e, s') := NewError code message s in ([Returned e], s').
Proof. reflexivity. Qed.

Lemma step_thread_counter (t : thread) (s : state) :
  0 <= errNo s < uint64_modulus ->
  errNo (snd (step_thread t s))
  = (errNo s + (returned (fst (step_thread t s)) - returned t))
    mod uint64_modulus.
Proof.
  intros Hs. destruct t as [c m|e|e]; cbn [step_thread fst snd returned];
    unfold bind, ret, AddUint64_errNo; cbn [fst snd errNo];
    rewrite ?Z.add_0_r, ?Z.sub_0_r, ?Z.sub_diag, ?Z.add_0_r;
    try reflexivity; symmetry; apply Z.mod_small; exact Hs.
Qed.

Lemma count_returned_update (threads : list thread) :
  forall (i : nat) (t t' : thread),
    nth_error threads i = Some t ->
    count_returned (update threads i t')
    = count_returned threads - returned t + returned t'.
Proof.
  induction threads as [|x l IH]; intros [|i] t t' H; try discriminate;
    cbn [nth_error update count_returned] in *.
  - injection H as ->. lia.
  - rewrite (IH i t t' H). lia.
Qed.

(** The counter loses no update under any schedule: it ends at its start
    plus the number of calls that have returned, modulo 2^64. *)
Lemma run_counter (schedule : list nat) :
  forall (threads : list thread) (s : state),
    0 <= errNo s < uint64_modulus ->
    errNo (snd (run schedule threads s))
    = (errNo s + (count_returned (fst (run schedule threads s))
                  - count_returned threads)) mod uint64_modulus.
Proof.
  induction schedule as [|i rest IH]; intros threads s Hs.
  - cbn [run ret fst snd]. rewrite Z.sub_diag, Z.add_0_r.
    symmetry. apply Z.mod_small. exact Hs.
  - cbn [run]. destruct (nth_error threads i) as [t|] eqn:Ei; [|apply IH, Hs].
    unfold bind. pose proof (step_thread_counter t s Hs) as Hstep.
    destruct (step_thread t s) as [t' s'] eqn:Et. cbn [fst snd] in Hstep.
    assert (Hs' : 0 <= errNo s' < uint64_modulus).
    { rewrite Hstep. apply Z.mod_pos_bound, uint64_modulus_pos. }
    rewrite (IH _ s' Hs'), (count_returned_update threads i t t' Ei), Hstep.
    rewrite Zplus_mod_idemp_l. f_equal. lia.
Qed.

(** C2 fails on the code: two calls that both read [errNo] before either
    increments it return templates with the same [errno]; the increments
    themselves are both kept. *)
Theorem interleaved_NewError_shares_errno :
  exists (a b : apiError) (s : state),
    run [0; 1; 0; 1]%nat
        [Called StatusNotFound "%s not found";
         Called StatusBadRequest "invalid %s id"] state0
    = ([Returned a; Returned b], s)
    /\ errno a = errno b
    /\ errNo s = 2.
Proof. do 3 eexists. repeat split. Qed.

(** * Further properties of the code *)

(** ** [errors.Is] over the chain *)

Lemma dyn_eqb_refl (d : dyn) : dyn_eqb d d = true.
Proof.
  induction d as [c m n|c m n d IH|p msg|p d msg IH|p d IH] using dyn_chain_ind;
    cbn [dyn_eqb]; rewrite ?Z.eqb_refl, ?String.eqb_refl, ?Pos.eqb_refl, ?IH;
    reflexivity.
Qed.

Lemma dyn_eqb_api_errno (c1 c2 : Z) (m1 m2 : string) (n1 n2 : Z)
    (e1 e2 : option dyn) :
  dyn_eqb (DApi c1 m1 n1 e1) (DApi c2 m2 n2 e2) = true -> Z.eqb n1 n2 = true.
Proof.
  cbn [dyn_eqb]. intros H.
  apply andb_true_iff in H as [H _]. apply andb_true_iff in H as [_ H].
  exact H.
Qed.

(** A target that is an [apiError] is found by [errors.Is] exactly when an
    [apiError] of the chain has its identity. *)
Lemma is_api_target (c : Z) (m : string) (tn : Z) (ca : option dyn) (d : dyn) :
  is_ d (Some (DApi c m tn ca)) = existsb (has_errno tn) (chain_of d).
Proof.
  induction d as [c1 m1 n1|c1 m1 n1 d IH|p msg|p d msg IH|p d IH]
    using dyn_chain_ind;
    cbn [is_ chain_of existsb has_errno error_eqb];
    unfold Is_with; cbn [assert_apiError errno]; try rewrite IH;
    try reflexivity.
  - destruct (Z.eqb n1 tn) eqn:En.
    + destruct (dyn_eqb _ _); reflexivity.
    + destruct (dyn_eqb _ _) eqn:Eq; [|reflexivity].
      apply dyn_eqb_api_errno in Eq. congruence.
  - destruct (Z.eqb n1 tn) eqn:En.
    + destruct (dyn_eqb _ _); reflexivity.
    + destruct (dyn_eqb _ _) eqn:Eq; [|reflexivity].
      apply dyn_eqb_api_errno in Eq. congruence.
Qed.

Lemma errors_Is_over_chain (e target : error) :
  errors_Is e target =
    match target with
    | Some (DApi _ _ tn _) => existsb (has_errno tn) (chain e)
    | Some t => existsb (fun d => dyn_eqb d t) (chain e)
    | None => is_nil e
    end.
Proof.
  unfold errors_Is, errors_Is_with.
  destruct target as [t|]; [|destruct e; reflexivity].
  destruct e as [d|]; [|destruct t; reflexivity].
  destruct t as [c m n ca|p msg|p d' msg|p d'];
    [apply is_api_target | | |]; apply is_pointer_target; reflexivity.
Qed.

(** X1: [errors.Is(err, target)] by the kind of target.  For an [apiError]
    target it tells whether some [apiError] of the Unwrap chain of [err] has
    the identity of the target, whatever the codes, messages and causes; for
    another non-nil target, whether the target is [==] to an error of the
    chain; for nil, whether [err] is nil. *)
Theorem errors_Is_by_kind_of_target (e target : error) :
  errors_Is e target =
    match target with
    | Some (DApi _ _ tn _) => existsb (has_errno tn) (chain e)
    | Some t => existsb (fun d => dyn_eqb d t) (chain e)
    | None => is_nil e
    end.
Proof. apply errors_Is_over_chain. Qed.

Lemma errors_Is_member (e : error) (d : dyn) :
  In d (chain e) -> errors_Is e (Some d) = true.
Proof.
  intros Hin. rewrite errors_Is_over_chain.
  destruct d as [c m n ca|p msg|p d' msg|p d'];
    apply existsb_exists;
    match goal with
    | |- exists x, In x _ /\ _ = true =>
        eexists; split; [exact Hin|]
    end;
    try apply dyn_eqb_refl.
  cbn [has_errno]. apply Z.eqb_refl.
Qed.

(** X2: every error of the Unwrap chain of [err], [err] itself included, is
    found by [errors.Is(err, _)]. *)
Theorem errors_Is_finds_chain_members (e : error) (d : dyn)
    (Hin : In d (chain e)) :
  errors_Is e (Some d) = true.
Proof. apply errors_Is_member, Hin. Qed.

Lemma errors_Is_finds_chain_members_witness :
  errors_Is (GetThingById G 5) (ErrFromExternalLib G) = true.
Proof.
  apply (errors_Is_finds_chain_members (GetThingById G 5)
           (DFundamental 1%positive "external lib error")).
  simpl. right. left. reflexivity.
Defined.

Lemma existsb_tail {A} (f : A -> bool) (x : A) (l : list A) :
  existsb f l = true -> existsb f (x :: l) = true.
Proof. intros H. cbn [existsb]. rewrite H. apply orb_true_r. Qed.

(** X3: a match is never lost by wrapping.  When [errors.Is(c, target)]
    holds for a non-nil target, it holds for [e.Wrap(c)] for every
    [apiError] [e] and for [errors.Wrap(c, message)] for every message. *)
Theorem wrapping_keeps_matches (e : apiError) (c : error) (t : dyn)
    (message : string) (s : state)
    (H : errors_Is c (Some t) = true) :
  errors_Is (Wrap e c) (Some t) = true
  /\ errors_Is (fst (errors_Wrap c message s)) (Some t) = true.
Proof.
  rewrite errors_Is_over_chain in H.
  destruct c as [d|]; [|destruct t; discriminate].
  rewrite !errors_Is_over_chain.
  cbn [errors_Wrap bind alloc ret fst Wrap as_error box chain chain_of
       Code Message errno err].
  cbn [chain] in H.
  destruct t as [tc tm tn tca|p msg|p d' msg|p d'];
    split; repeat apply existsb_tail; exact H.
Qed.

Lemma wrapping_keeps_matches_witness :
  errors_Is (Wrap (ErrNotFound G) (ErrFromExternalLib G))
            (Some (DFundamental 1%positive "external lib error")) = true
  /\ errors_Is (fst (errors_Wrap (ErrFromExternalLib G) "context" started))
               (Some (DFundamental 1%positive "external lib error")) = true.
Proof.
  apply (wrapping_keeps_matches (ErrNotFound G) (ErrFromExternalLib G)
           (DFundamental 1%positive "external lib error") "context" started).
  reflexivity.
Defined.

(** ** The message of a chain *)

Lemma texts_of_chain_nonempty (d : dyn) : flat_map own_text (chain_of d) <> [].
Proof.
  induction d as [c m n|c m n d IH|p msg|p d msg IH|p d IH] using dyn_chain_ind;
    cbn [chain_of flat_map own_text app]; try discriminate; exact IH.
Qed.

Lemma concat_cons (sep x : string) (l : list string) :
  l <> [] -> String.concat sep (x :: l) = x ++ sep ++ String.concat sep l.
Proof. destruct l; [congruence | reflexivity]. Qed.

Lemma dyn_Error_joins_texts (d : dyn) :
  dyn_Error d = String.concat ": " (flat_map own_text (chain_of d)).
Proof.
  induction d as [c m n|c m n d IH|p msg|p d msg IH|p d IH] using dyn_chain_ind;
    cbn [dyn_Error chain_of flat_map own_text app]; try reflexivity.
  - unfold operand_with. rewrite Sprintf_message_cause, IH.
    symmetry. apply concat_cons, texts_of_chain_nonempty.
  - rewrite IH. symmetry. apply concat_cons, texts_of_chain_nonempty.
  - exact IH.
Qed.

(** X4: [Error()] of an [apiError] is the texts of its Unwrap chain from the
    top, joined by a colon and a space: the [Message] of each [apiError] and
    the message of each [pkg/errors] value, a [*withStack] adding nothing. *)
Theorem Error_joins_chain_texts (e : apiError) :
  Error e = String.concat ": " (texts (as_error e)).
Proof. rewrite <- dyn_Error_box. apply dyn_Error_joins_texts. Qed.

(** ** Formatting a message without directives *)

Lemma Sprintf_no_percent (format : string) (a : list fmt.any) :
  no_percent format = true -> fmt.Sprintf format a = format ++ fmt.extra a.
Proof.
  induction format as [|ch rest IH]; intros H; [reflexivity|].
  cbn [no_percent] in H. apply andb_true_iff in H as [Hc Hrest].
  apply negb_true_iff in Hc.
  assert (Hne : ch <> "%"%char) by (apply Ascii.eqb_neq; exact Hc).
  cbn [append]. rewrite <- (IH Hrest).
  destruct ch as [[] [] [] [] [] [] [] []]; try reflexivity.
  congruence.
Qed.

(** X5: when the message of [e] holds no percent sign, [e.F(a...)] appends
    to it the report of the unused arguments and changes nothing else; with
    no argument, [e.F()] is [e]. *)
Theorem F_without_directives (e : apiError) (a : list fmt.any)
    (H : no_percent (Message e) = true) :
  F e a = mkApiError (Code e) (Message e ++ fmt.extra a) (errno e) (err e)
  /\ F e [] = e.
Proof.
  unfold F. rewrite !Sprintf_no_percent by exact H. split; [reflexivity|].
  cbn [fmt.extra]. rewrite append_empty_r. destruct e; reflexivity.
Qed.

Lemma F_without_directives_witness :
  let e := F (ErrInvalidId G) [fmt.AString "thing"] in
  F e [fmt.AString "x"]
  = mkApiError 400 "invalid thing id%!(EXTRA string=x)" 1 nil_error
  /\ F e [] = e.
Proof.
  intros e. apply (F_without_directives e [fmt.AString "x"]). reflexivity.
Defined.

(** ** The diagnostic wrap of the service *)


(** ** The three kinds of request *)

Lemma handler_high (id : Z) (s : state) :
  10 <= id ->
  DoSomethingWithThing G id s
  = (as_error (F (ErrThingIdTooHigh G) [fmt.AString "thing"]), s)
  /\ DoSomethingWithThingHandler G id s
     = (Some (Known ("Internal error: thing id too high" ++ newline)
                body_400_too_high), s).
Proof.
  intros H. assert (H10 : Z.leb 10 id = true) by (apply Z.leb_le; exact H).
  unfold DoSomethingWithThingHandler, DoSomethingWithThing, bind.
  rewrite H10. split; reflexivity.
Qed.

Lemma handler_low (id : Z) (s : state) :
  0 <= id < 10 ->
  DoSomethingWithThing G id s = (GetThingById G id, s)
  /\ GetThingById G id
     = Wrap (F (ErrNotFound G) [fmt.AString "thing"]) (ErrFromExternalLib G)
  /\ DoSomethingWithThingHandler G id s
     = (Some (Known ("Internal error: thing not found: external lib error"
                     ++ newline) body_404_not_found), s).
Proof.
  intros H. assert (H10 : Z.leb 10 id = false) by (apply Z.leb_gt; lia).
  assert (H0 : Z.ltb id 0 = false) by (apply Z.ltb_ge; lia).
  unfold DoSomethingWithThingHandler, DoSomethingWithThing, GetThingById, bind.
  rewrite H10, H0. repeat split.
Qed.

Lemma handler_negative (id : Z) (s : state) :
  id < 0 ->
  DoSomethingWithThingHandler G id s
  = (Some (Known ("Internal error: this is a wrapped error: invalid thing id"
                  ++ newline) body_400_invalid_id),
     mkState (errNo s) (Pos.succ (Pos.succ (next s)))).
Proof.
  intros H. assert (H10 : Z.leb 10 id = false) by (apply Z.leb_gt; lia).
  assert (H0 : Z.ltb id 0 = true) by (apply Z.ltb_lt; exact H).
  unfold DoSomethingWithThingHandler, DoSomethingWithThing, GetThingById, bind.
  rewrite H10, H0. reflexivity.
Qed.





(** X9: the handler answers every request with an error body: it never gives
    the answer 200 and never takes the unknown-error path, since the library
    call of the database always fails; the body is one of the three bodies
    of the program, with code 400 or 404. *)
Theorem handler_always_responds_with_known_error (id : Z) (s : state) :
  exists (log : string) (body : json.value),
    fst (DoSomethingWithThingHandler G id s) = Some (Known log body)
    /\ In body [body_400_too_high; body_404_not_found; body_400_invalid_id].
Proof.
  destruct (Z_lt_le_dec id 0) as [Hneg|Hnonneg].
  - rewrite (handler_negative id s Hneg).
    do 2 eexists. split; [reflexivity|]. simpl. auto.
  - destruct (Z_lt_le_dec id 10) as [Hlow|Hhigh].
    + destruct (handler_low id s (conj Hnonneg Hlow)) as (_ & _ & ->).
      do 2 eexists. split; [reflexivity|]. simpl. auto.
    + destruct (handler_high id s Hhigh) as (_ & ->).
      do 2 eexists. split; [reflexivity|]. simpl. auto.
Qed.


(** X11: an error made by [errors.New], also after [errors.Wrap], and the
    nil error get the unknown-error answer of [respondWithError]: no body is
    made from them. *)
Theorem opaque_errors_get_unknown_answer (message context : string)
    (s : state) :
  let (e, s1) := errors_New message s in
  let w := fst (errors_Wrap e context s1) in
  respondWithError e = UnknownError e
  /\ respondWithError w = UnknownError w
  /\ respondWithError nil_error = UnknownError nil_error
  /\ body_of (Some (respondWithError w)) = None.
Proof. cbn. repeat split. Qed.

(** ** The frame of [NewError] *)

Lemma NewErrors_snd_cons (code : Z) (message : string)
    (rest : list (Z * string)) (s : state) :
  snd (NewErrors ((code, message) :: rest) s) =
    snd (NewErrors rest
           (mkState ((errNo s + 1) mod uint64_modulus) (next s))).
Proof.
  cbn [NewErrors]. unfold bind. rewrite NewError_run.
  destruct (NewErrors rest _) as [es s']. reflexivity.
Qed.

(** X12: a run of [NewError] calls returns, in order, templates with the
    codes and messages given and no cause; it advances the counter by the
    number of calls modulo 2^64 and allocates nothing. *)
Theorem NewErrors_frame (calls : list (Z * string)) (s : state)
    (Hs : 0 <= errNo s < uint64_modulus) :
  map (fun e => (Code e, Message e)) (fst (NewErrors calls s)) = calls
  /\ Forall (fun e => err e = nil_error) (fst (NewErrors calls s))
  /\ errNo (snd (NewErrors calls s))
     = (errNo s + Z.of_nat (List.length calls)) mod uint64_modulus
  /\ next (snd (NewErrors calls s)) = next s.
Proof.
  revert s Hs. induction calls as [|[c m] rest IH]; intros s Hs.
  - cbn [NewErrors ret fst snd map List.length Z.of_nat].
    rewrite Z.add_0_r, Z.mod_small by exact Hs. repeat split. constructor.
  - rewrite NewErrors_cons, NewErrors_snd_cons.
    set (s1 := mkState ((errNo s + 1) mod uint64_modulus) (next s)).
    assert (Hs1 : 0 <= errNo s1 < uint64_modulus)
      by (apply Z.mod_pos_bound, uint64_modulus_pos).
    destruct (IH s1 Hs1) as (Hmap & Hall & Hcount & Hnext).
    repeat split.
    + cbn [map Code Message]. now rewrite Hmap.
    + constructor; [reflexivity | exact Hall].
    + rewrite Hcount. cbn [errNo s1]. rewrite Zplus_mod_idemp_l.
      f_equal. cbn [List.length]. lia.
    + rewrite Hnext. reflexivity.
Qed.

Lemma NewErrors_frame_witness :
  let calls := [(StatusNotFound, "%s not found");
                (StatusBadRequest, "invalid %s id")] in
  map (fun e => (Code e, Message e)) (fst (NewErrors calls state0)) = calls
  /\ Forall (fun e => err e = nil_error) (fst (NewErrors calls state0))
  /\ errNo (snd (NewErrors calls state0))
     = (errNo state0 + Z.of_nat (List.length calls)) mod uint64_modulus
  /\ next (snd (NewErrors calls state0)) = next state0.
Proof.
  intros calls. apply (NewErrors_frame calls state0).
  split; [apply Z.le_refl | reflexivity].
Defined.

(** ** The method [Is] and [errors.Is] *)

(** X13: for a non-nil target, whenever the method [e.Is(target)] answers
    true, so does [errors.Is(e, target)]; and [errors.Is(e, nil)] is false
    for every [apiError] [e], so the answer true that the method gives to a
    nil target is never seen through [errors.Is]. *)
Theorem Is_true_implies_errors_Is (e : apiError) (t : dyn)
    (H : Is e (Some t) = true) :
  errors_Is (as_error e) (Some t) = true
  /\ errors_Is (as_error e) nil_error = false.
Proof.
  split; [|reflexivity].
  rewrite errors_Is_over_chain. unfold Is, Is_with in H.
  unfold as_error, box. cbn [chain chain_of].
  destruct t as [tc tm tn tca|p msg|p d' msg|p d'];
    cbn [assert_apiError errno] in H.
  - cbn [existsb has_errno]. rewrite H. reflexivity.
  - unfold errors_Is_with in H. destruct (err e) as [d|]; [|discriminate].
    rewrite is_pointer_target in H by reflexivity.
    apply existsb_tail. exact H.
  - unfold errors_Is_with in H. destruct (err e) as [d|]; [|discriminate].
    rewrite is_pointer_target in H by reflexivity.
    apply existsb_tail. exact H.
  - unfold errors_Is_with in H. destruct (err e) as [d|]; [|discriminate].
    rewrite is_pointer_target in H by reflexivity.
    apply existsb_tail. exact H.
Qed.

Lemma Is_true_implies_errors_Is_witness :
  let e := F (ErrInvalidId G) [fmt.AString "thing"] in
  errors_Is (as_error e) (Some (box (ErrInvalidId G))) = true
  /\ errors_Is (as_error e) nil_error = false.
Proof.
  intros e. apply (Is_true_implies_errors_Is e (box (ErrInvalidId G))).
  reflexivity.
Defined.
